(** * logruseq: a logrus hook that posts log entries to Seq over HTTP

    Shallow embedding of [logruseq.go] and verification of its
    construction, level query and delivery operations.

    The package is a thin adapter: [NewSeqHook] folds functional options
    over a default option record, [Levels] is an accessor, and [Fire]
    formats one entry with logrus's JSON formatter, posts it and
    interprets the status.  The collaborators that [Fire] calls into
    (the JSON encoder, time formatting, URL parsing and the HTTP round
    trip) are parameters of the development, collected in [Env]. *)

From stdpp Require Import gmap strings list fin_maps pretty.
From Stdlib Require Import ZArith Ascii String.

Open Scope string_scope.

(** ** Go values shared by the whole package *)

(** A Go [error] value.  The package only ever reports errors and never
    inspects them, so an error is represented by the text its [Error]
    method returns, tagged with the package that created it. *)
Inductive error : Type :=
| errorString (pkg : string) (msg : string).

Definition Error (e : error) : string :=
  match e with errorString _ msg => msg end.

(** A Go result pair [(v, err)], of which exactly one side is meaningful. *)
Inductive result (A : Type) : Type :=
| Ok (v : A)
| Err (e : error).
Arguments Ok {A} v.
Arguments Err {A} e.

(** ** Package [fmt]: the one verb the package uses *)

Module fmt.

(** [Sprintf format args] for string operands: [%v] prints the next
    operand verbatim, [%%] prints a percent sign, an exhausted operand
    list prints Go's [%!v(MISSING)] marker. *)
Fixpoint Sprintf (format : string) (args : list string) : string :=
  match format with
  | EmptyString => EmptyString
  | String "%" (String "v" rest) =>
      match args with
      | a :: args' => a +:+ Sprintf rest args'
      | [] => "%!v(MISSING)" +:+ Sprintf rest []
      end
  | String "%" (String "%" rest) => String "%" (Sprintf rest args)
  | String c rest => String c (Sprintf rest args)
  end.

(** [Errorf] builds the error whose text is the formatted string. *)
Definition Errorf (format : string) (args : list string) : error :=
  errorString "fmt" (Sprintf format args).

End fmt.

(** ** Package [time] *)

Module time.

(** A [time.Time]: an instant and the offset of its location. *)
Record Time : Type := mkTime {
  unixNano : Z;
  zoneOffset : Z;
}.

(** The layout constants the formatter chooses between. *)
Definition RFC3339 : string := "2006-01-02T15:04:05Z07:00".
Definition RFC3339Nano : string := "2006-01-02T15:04:05.999999999Z07:00".

End time.

(** ** Package [logrus] *)

Module logrus.

(** [type Level uint32], numbered from the most severe. *)
Definition Level : Type := N.

Definition PanicLevel : Level := 0%N.
Definition FatalLevel : Level := 1%N.
Definition ErrorLevel : Level := 2%N.
Definition WarnLevel  : Level := 3%N.
Definition InfoLevel  : Level := 4%N.
Definition DebugLevel : Level := 5%N.
Definition TraceLevel : Level := 6%N.

(** [Level.String]: the level's name, ["unknown"] outside the seven. *)
Definition Level_String (l : Level) : string :=
  match l with
  | 0%N => "panic"
  | 1%N => "fatal"
  | 2%N => "error"
  | 3%N => "warning"
  | 4%N => "info"
  | 5%N => "debug"
  | 6%N => "trace"
  | _ => "unknown"
  end.

(** [logrus.AllLevels], the seven severities logrus defines. *)
Definition AllLevels : list Level :=
  [PanicLevel; FatalLevel; ErrorLevel; WarnLevel; InfoLevel; DebugLevel;
   TraceLevel].

(** *** Entries and the JSON formatter

  [Fire] delegates serialization to [logrus.JSONFormatter].  The
  formatter belongs to the logging framework, not to this package; it
  is embedded here after its [json_formatter.go] and [formatter.go] so
  that the record [Fire] posts can be stated.  The formatter fields
  that [Fire] leaves at their zero value ([DisableTimestamp],
  [DataKey], [PrettyPrint], [DisableHTMLEscape], [CallerPrettyfier])
  are taken at that value. *)

(** A field value, a Go [interface{}]. *)
Inductive Value : Type :=
| VNil
| VBool (b : bool)
| VInt (n : Z)
| VString (s : string)
| VError (e : error)
| VOpaque (id : N).

(** [type Fields map[string]interface{}] is [gmap string Value]. *)

(** [runtime.Frame], as far as the formatter reads it. *)
Record Frame : Type := mkFrame {
  Function : string;
  File : string;
  Line : N;
}.

(** [logrus.Entry].  [ReportCaller] is [entry.Logger.ReportCaller],
    false when the entry has no logger; [err] is the entry's own
    field-error text.  The field [Level] is named [EntryLevel],
    next to the type [Level]. *)
Record Entry : Type := mkEntry {
  Data : gmap string Value;
  Time : time.Time;
  EntryLevel : Level;
  Message : string;
  Caller : option Frame;
  ReportCaller : bool;
  err : string;
}.

Definition HasCaller (entry : Entry) : bool :=
  ReportCaller entry && bool_decide (is_Some (Caller entry)).

(** The [fieldKey] constants. *)
Definition FieldKeyMsg : string := "msg".
Definition FieldKeyLevel : string := "level".
Definition FieldKeyTime : string := "time".
Definition FieldKeyLogrusError : string := "logrus_error".
Definition FieldKeyFunc : string := "func".
Definition FieldKeyFile : string := "file".

(** [FieldMap.resolve] *)
Definition resolve (f : gmap string string) (key : string) : string :=
  match f !! key with
  | Some k => k
  | None => key
  end.

(** [logrus.JSONFormatter] *)
Record JSONFormatter : Type := mkJSONFormatter {
  TimestampFormat : string;
  FieldMap : gmap string string;
}.

(** One step of [prefixFieldClashes]: a field stored under a reserved
    key moves to that key prefixed with ["fields."]. *)
Definition move_clash (key : string) (data : gmap string Value)
  : gmap string Value :=
  match data !! key with
  | Some v => delete key (<[("fields." +:+ key) := v]> data)
  | None => data
  end.

(** The caller keys are copied to the prefixed key, not removed. *)
Definition copy_clash (key : string) (data : gmap string Value)
  : gmap string Value :=
  match data !! key with
  | Some v => <[("fields." +:+ key) := v]> data
  | None => data
  end.

(** [prefixFieldClashes] *)
Definition prefixFieldClashes (data : gmap string Value)
    (fieldMap : gmap string string) (reportCaller : bool)
  : gmap string Value :=
  let data := move_clash (resolve fieldMap FieldKeyTime) data in
  let data := move_clash (resolve fieldMap FieldKeyMsg) data in
  let data := move_clash (resolve fieldMap FieldKeyLevel) data in
  let data := move_clash (resolve fieldMap FieldKeyLogrusError) data in
  if reportCaller then
    let data := copy_clash (resolve fieldMap FieldKeyFunc) data in
    copy_clash (resolve fieldMap FieldKeyFile) data
  else data.

(** The copy loop opening [Format]: error values are stored as their text. *)
Definition flatten (v : Value) : Value :=
  match v with
  | VError e => VString (Error e)
  | _ => v
  end.

Section Format.

(** [Time.Format] and the [encoding/json] encoder are the Go
    standard library's. *)
Variable time_Format : time.Time -> string -> string.
Variable json_Encode : gmap string Value -> result string.

(** The [Fields] map that [Format] hands to the encoder. *)
Definition record (f : JSONFormatter) (entry : Entry)
  : gmap string Value :=
  let data := flatten <$> Data entry in
  let data := prefixFieldClashes data (FieldMap f) (HasCaller entry) in
  let timestampFormat :=
    if bool_decide (TimestampFormat f = "") then time.RFC3339
    else TimestampFormat f in
  let data :=
    if bool_decide (err entry = "") then data
    else <[resolve (FieldMap f) FieldKeyLogrusError := VString (err entry)]> data in
  let data :=
    <[resolve (FieldMap f) FieldKeyTime :=
        VString (time_Format (Time entry) timestampFormat)]> data in
  let data := <[resolve (FieldMap f) FieldKeyMsg := VString (Message entry)]> data in
  let data :=
    <[resolve (FieldMap f) FieldKeyLevel :=
        VString (Level_String (EntryLevel entry))]> data in
  match Caller entry with
  | Some frame =>
      if HasCaller entry then
        let funcVal := Function frame in
        let fileVal := File frame +:+ ":" +:+ pretty (Line frame) in
        let data :=
          if bool_decide (funcVal = "") then data
          else <[resolve (FieldMap f) FieldKeyFunc := VString funcVal]> data in
        if bool_decide (fileVal = "") then data
        else <[resolve (FieldMap f) FieldKeyFile := VString fileVal]> data
      else data
  | None => data
  end.

(** [JSONFormatter.Format] *)
Definition Format (f : JSONFormatter) (entry : Entry) : result string :=
  match json_Encode (record f entry) with
  | Err e =>
      Err (fmt.Errorf "failed to marshal fields to JSON, %v" [Error e])
  | Ok b => Ok b
  end.

End Format.

End logrus.

(** ** The hook and its options *)

(** [type SeqHook struct] *)
Record SeqHook : Type := mkSeqHook {
  endpoint : string;
  apiKey   : string;
  levels   : list logrus.Level;
}.

(** [type SeqHookOptions struct] *)
Record SeqHookOptions : Type := mkSeqHookOptions {
  opt_apiKey : string;
  opt_levels : list logrus.Level;
}.

(** A functional option, a function on a pointer to the draft options:
    it receives the draft and leaves it updated. *)
Definition Configurator : Type := SeqHookOptions -> SeqHookOptions.

(** [OptionAPIKey] assigns [opts.apiKey]. *)
Definition OptionAPIKey (apiKey : string) : Configurator :=
  fun opts => {| opt_apiKey := apiKey; opt_levels := opt_levels opts |}.

(** [OptionLevels] assigns [opts.levels]. *)
Definition OptionLevels (levels : list logrus.Level) : Configurator :=
  fun opts => {| opt_apiKey := opt_apiKey opts; opt_levels := levels |}.

(** The draft [sho] that [NewSeqHook] starts from: the zero API key and
    the seven levels in the order the literal lists them. *)
Definition default_options : SeqHookOptions :=
  {| opt_apiKey := "";
     opt_levels := [logrus.TraceLevel; logrus.DebugLevel; logrus.InfoLevel;
                    logrus.WarnLevel; logrus.ErrorLevel; logrus.FatalLevel;
                    logrus.PanicLevel] |}.

(** [for _, opt := range opts { opt(sho) }] *)
Definition apply_options (opts : list Configurator) (sho : SeqHookOptions)
  : SeqHookOptions :=
  fold_left (fun o opt => opt o) opts sho.

(** [NewSeqHook] *)
Definition NewSeqHook (host : string) (opts : list Configurator) : SeqHook :=
  let sho := apply_options opts default_options in
  let endpoint := fmt.Sprintf "%v/api/events/raw" [host] in
  {| endpoint := endpoint;
     apiKey := opt_apiKey sho;
     levels := opt_levels sho |}.

(** [Levels] *)
Definition Levels (hook : SeqHook) : list logrus.Level := levels hook.


(** ** Packages [net/textproto] and [net/http] *)

Module http.

(** A byte that may appear in a header name (an RFC 7230 token byte). *)
Definition validHeaderFieldByte (c : ascii) : bool :=
  let n := nat_of_ascii c in
  ((48 <=? n) && (n <=? 57))%nat || ((65 <=? n) && (n <=? 90))%nat
  || ((97 <=? n) && (n <=? 122))%nat
  || bool_decide (c ∈ ["!"; "#"; "$"; "%"; "&"; "'"; "*"; "+"; "-"; ".";
                        "^"; "_"; "`"; "|"; "~"]%char).

Fixpoint all_valid (s : string) : bool :=
  match s with
  | EmptyString => true
  | String c rest => validHeaderFieldByte c && all_valid rest
  end.

(** The rewriting loop of [canonicalMIMEHeaderKey]: upper case at the
    start and after each dash, lower case elsewhere. *)
Fixpoint canonical_from (upper : bool) (s : string) : string :=
  match s with
  | EmptyString => EmptyString
  | String c rest =>
      let n := nat_of_ascii c in
      let c' :=
        if upper && (97 <=? n)%nat && (n <=? 122)%nat
        then ascii_of_nat (n - 32)
        else if negb upper && (65 <=? n)%nat && (n <=? 90)%nat
        then ascii_of_nat (n + 32)
        else c in
      String c' (canonical_from (bool_decide (c' = "-"%char)) rest)
  end.

(** [textproto.CanonicalMIMEHeaderKey]: a key with a byte that is not a
    token byte is returned unchanged. *)
Definition CanonicalMIMEHeaderKey (s : string) : string :=
  if all_valid s then canonical_from true s else s.

(** [type Header map[string][]string] is [gmap string (list string)]. *)

(** [Header.Set] *)
Definition Header_Set (h : gmap string (list string)) (key value : string)
  : gmap string (list string) :=
  <[CanonicalMIMEHeaderKey key := [value]]> h.

(** [Header.Add] *)
Definition Header_Add (h : gmap string (list string)) (key value : string)
  : gmap string (list string) :=
  let key := CanonicalMIMEHeaderKey key in
  <[key := (default [] (h !! key) ++ [value])%list]> h.

(** [Header.Values] *)
Definition Header_Values (h : gmap string (list string)) (key : string)
  : list string :=
  default [] (h !! CanonicalMIMEHeaderKey key).

(** [Header.Get] *)
Definition Header_Get (h : gmap string (list string)) (key : string)
  : string :=
  match Header_Values h key with
  | [] => ""
  | v :: _ => v
  end.

(** [http.Request], as far as the package builds it. *)
Record Request : Type := mkRequest {
  Method : string;
  URL : string;
  Header : gmap string (list string);
  Body : string;
}.

(** [http.Response]: the status, what reading the body to its end
    gives (the bytes or a read error), and what closing the body
    returns. *)
Record Response : Type := mkResponse {
  StatusCode : Z;
  RespBody : result string;
  CloseErr : option error;
}.

Definition StatusCreated : Z := 201.

Definition quote : ascii := ascii_of_nat 34.

(** [validMethod] *)
Definition validMethod (method : string) : bool :=
  negb (bool_decide (method = "")) && all_valid method.

Section NewRequest.

(** [url.Parse], reduced to whether the string parses. *)
Variable url_Parse : string -> option error.

(** [http.NewRequest] *)
Definition NewRequest (method url body : string) : result Request :=
  let method := if bool_decide (method = "") then "GET" else method in
  if negb (validMethod method) then
    Err (errorString "fmt"
           ("net/http: invalid method " +:+ String quote (method +:+ String quote "")))
  else
    match url_Parse url with
    | Some e => Err e
    | None =>
        Ok {| Method := method; URL := url; Header := ∅; Body := body |}
    end.

End NewRequest.

End http.

(** [ioutil.ReadAll] on a response body. *)
Definition ReadAll (body : result string) : result string := body.

(** ** The collaborators of [Fire] *)

(** What the Go standard library and the network contribute to one
    delivery: time formatting, JSON encoding, URL parsing, and the round
    trip of [http.DefaultClient] with the remote endpoint. *)
Record Env : Type := mkEnv {
  time_Format : time.Time -> string -> string;
  json_Encode : gmap string logrus.Value -> result string;
  url_Parse : string -> option error;
  RoundTrip : http.Request -> result http.Response;
}.

(** ** Delivery *)

(** The state a call of [Fire] runs in: the hook behind the receiver
    pointer, the requests handed to the HTTP client so far, and the
    response bodies obtained and closed. *)
Record Process : Type := mkProcess {
  receiver : SeqHook;
  sent : list http.Request;
  opened : nat;
  closed : nat;
}.

(** Computations over the process state. *)
Definition M (A : Type) : Type := Process -> A * Process.

Definition ret {A : Type} (a : A) : M A := fun p => (a, p).

Definition bind {A B : Type} (m : M A) (k : A -> M B) : M B :=
  fun p => let '(a, p') := m p in k a p'.

Declare Scope go_scope.
Delimit Scope go_scope with go.
Notation "x <- m ;; k" := (bind m (fun x => k))
  (at level 100, m at next level, right associativity) : go_scope.
Notation "m ;;; k" := (bind m (fun _ => k))
  (at level 100, right associativity) : go_scope.
Open Scope go_scope.

(** Reading a field through the receiver pointer. *)
Definition load {A : Type} (field : SeqHook -> A) : M A :=
  fun p => (field (receiver p), p).

(** [http.DefaultClient.Do]: the request goes out; a response comes back
    with an open body. *)
Definition Do (env : Env) (req : http.Request) : M (result http.Response) :=
  fun p =>
    let p' := {| receiver := receiver p; sent := (sent p ++ [req])%list;
                 opened := opened p; closed := closed p |} in
    match RoundTrip env req with
    | Ok resp =>
        (Ok resp, {| receiver := receiver p'; sent := sent p';
                     opened := S (opened p'); closed := closed p' |})
    | Err e => (Err e, p')
    end.

(** [resp.Body.Close] *)
Definition Close (resp : http.Response) : M (option error) :=
  fun p => (http.CloseErr resp,
            {| receiver := receiver p; sent := sent p;
               opened := opened p; closed := S (closed p) |}).

(** The formatter literal of [Fire]. *)
Definition formatter : logrus.JSONFormatter :=
  {| logrus.TimestampFormat := time.RFC3339Nano;
     logrus.FieldMap :=
       <[logrus.FieldKeyMsg := "@mt"]>
         (<[logrus.FieldKeyLevel := "@l"]>
            (<[logrus.FieldKeyTime := "@t"]> ∅)) |}.

(** [Fire].  The result is the returned [error], [None] for [nil]. *)
Definition Fire (env : Env) (entry : logrus.Entry) : M (option error) :=
  match logrus.Format (time_Format env) (json_Encode env) formatter entry with
  | Err err => ret (Some err)
  | Ok data =>
      endpoint <- load endpoint ;;
      match http.NewRequest (url_Parse env) "POST" endpoint data with
      | Err err => ret (Some err)
      | Ok req =>
          let req :=
            {| http.Method := http.Method req; http.URL := http.URL req;
               http.Header :=
                 http.Header_Set (http.Header req) "Content-Type"
                   "application/vnd.serilog.clef";
               http.Body := http.Body req |} in
          apiKey <- load apiKey ;;
          let req :=
            if negb (bool_decide (apiKey = "")) then
              {| http.Method := http.Method req; http.URL := http.URL req;
                 http.Header :=
                   http.Header_Add (http.Header req) "X-Seq-ApiKey" apiKey;
                 http.Body := http.Body req |}
            else req in
          r <- Do env req ;;
          match r with
          | Err err => ret (Some err)
          | Ok resp =>
              (* defer resp.Body.Close(): runs on the way out, its
                 result is dropped *)
              out <-
                (if negb (bool_decide (http.StatusCode resp = http.StatusCreated))
                 then
                   match ReadAll (http.RespBody resp) with
                   | Err err => ret (Some err)
                   | Ok data =>
                       ret (Some (fmt.Errorf "error creating seq event: %v" [data]))
                   end
                 else ret None) ;;
              Close resp ;;;
              ret out
          end
      end
  end.

(** Running [Fire] on a hook from a quiet process. *)
Definition start (hook : SeqHook) : Process :=
  {| receiver := hook; sent := []; opened := 0; closed := 0 |}.

Definition run (env : Env) (hook : SeqHook) (entry : logrus.Entry)
  : option error * Process :=
  Fire env entry (start hook).

(** ** Vocabulary of the statements *)

(** In the call of [Fire] from state [p], request [req] was handed to
    the HTTP client and the endpoint answered it with [resp]. *)
Definition answered (env : Env) (entry : logrus.Entry) (p : Process)
    (req : http.Request) (resp : http.Response) : Prop :=
  sent (snd (Fire env entry p)) = (sent p ++ [req])%list
  /\ RoundTrip env req = Ok resp.

(** [contains needle s]: [needle] occurs in [s]. *)
Fixpoint contains (needle s : string) : bool :=
  String.prefix needle s ||
  match s with
  | EmptyString => false
  | String _ rest => contains needle rest
  end.

(** A way of reading the endpoint's status off the error [Fire] returns
    works if it gives the status of every rejected delivery. *)
Definition reads_status (status_of : error -> Z) : Prop :=
  forall env entry p req resp body e,
    answered env entry p req resp ->
    http.StatusCode resp <> http.StatusCreated ->
    http.RespBody resp = Ok body ->
    fst (Fire env entry p) = Some e ->
    status_of e = http.StatusCode resp.

(** The record [Fire] serializes for an entry. *)
Definition record_of (env : Env) (entry : logrus.Entry)
  : gmap string logrus.Value :=
  logrus.record (time_Format env) formatter entry.

(** The field mapping as the specification words it: message, level and
    timestamp under [@mt], [@l] and [@t], and every field of the entry
    under its own name. *)
Definition clef_mapping (env : Env) (entry : logrus.Entry)
    (r : gmap string logrus.Value) : Prop :=
  r !! "@mt" = Some (logrus.VString (logrus.Message entry))
  /\ r !! "@l" =
       Some (logrus.VString (logrus.Level_String (logrus.EntryLevel entry)))
  /\ r !! "@t" =
       Some (logrus.VString
               (time_Format env (logrus.Time entry) time.RFC3339Nano))
  /\ forall k v,
       logrus.Data entry !! k = Some v -> r !! k = Some (logrus.flatten v).

(** The keys the formatter writes itself for an entry. *)
Definition reserved (entry : logrus.Entry) : list string :=
  (["@t"; "@mt"; "@l"; "logrus_error"]
   ++ if logrus.HasCaller entry then ["func"; "file"] else [])%list.

(** A field name that the formatter leaves alone: it is no reserved key,
    and if it is a reserved key prefixed with [fields.], the entry has
    no field under that reserved key to be moved onto it. *)
Definition free_name (entry : logrus.Entry) (k : string) : Prop :=
  forall r, r ∈ reserved entry ->
    k <> r /\ (k = "fields." +:+ r -> logrus.Data entry !! r = None).

(** A configurator that leaves the level set, respectively the API key,
    of the draft as it finds it. *)
Definition keeps_levels (opt : Configurator) : Prop :=
  forall o, opt_levels (opt o) = opt_levels o.

Definition keeps_apiKey (opt : Configurator) : Prop :=
  forall o, opt_apiKey (opt o) = opt_apiKey o.

(** ** Sample collaborators *)

Module sample.

(** An endpoint that answers every request with the given status and
    body. *)
Definition endpoint_env (status : Z) (body : result string) : Env :=
  {| time_Format := fun t _ => pretty (time.unixNano t);
     json_Encode := fun _ => Ok "{}";
     url_Parse := fun _ => None;
     RoundTrip := fun _ => Ok {| http.StatusCode := status;
                                 http.RespBody := body;
                                 http.CloseErr := None |} |}.

(** An endpoint that cannot be reached. *)
Definition unreachable_env : Env :=
  {| time_Format := fun t _ => pretty (time.unixNano t);
     json_Encode := fun _ => Ok "{}";
     url_Parse := fun _ => None;
     RoundTrip := fun _ =>
       Err (errorString "net" "dial tcp: connection refused") |}.

Definition entry (fields : gmap string logrus.Value) : logrus.Entry :=
  {| logrus.Data := fields;
     logrus.Time := time.mkTime 0 0;
     logrus.EntryLevel := logrus.InfoLevel;
     logrus.Message := "hello";
     logrus.Caller := None;
     logrus.ReportCaller := false;
     logrus.err := "" |}.

Definition hook : SeqHook := NewSeqHook "http://localhost:5341" [].

(** An entry with two fields named like keys the formatter writes. *)
Definition clash_entry : logrus.Entry :=
  entry (<["@mt" := logrus.VInt 1]> (<["logrus_error" := logrus.VInt 2]> ∅)).

End sample.

(** The request [Fire] hands to the client, from the bare request that
    [http.NewRequest] returned: the content type is set, and the API key
    is added when the hook has one. *)
Definition dress (key : string) (req0 : http.Request) : http.Request :=
  let h :=
    http.Header_Set (http.Header req0) "Content-Type"
      "application/vnd.serilog.clef" in
  {| http.Method := http.Method req0;
     http.URL := http.URL req0;
     http.Header :=
       if bool_decide (key = "") then h
       else http.Header_Add h "X-Seq-ApiKey" key;
     http.Body := http.Body req0 |}.

(** The process after a request went out ... *)
Definition after_send (p : Process) (req : http.Request) : Process :=
  {| receiver := receiver p; sent := (sent p ++ [req])%list;
     opened := opened p; closed := closed p |}.

(** ... and after its response was obtained and its body closed. *)
Definition after_response (p : Process) (req : http.Request) : Process :=
  {| receiver := receiver p; sent := (sent p ++ [req])%list;
     opened := S (opened p); closed := S (closed p) |}.

(** The exits of [Fire], one constructor per [return]. *)
Inductive Outcome (env : Env) (entry : logrus.Entry) (p : Process)
  : option error -> Process -> Prop :=
| EncodingFailed e :
    logrus.Format (time_Format env) (json_Encode env) formatter entry = Err e ->
    Outcome env entry p (Some e) p
| RequestConstructionFailed data e :
    logrus.Format (time_Format env) (json_Encode env) formatter entry = Ok data ->
    http.NewRequest (url_Parse env) "POST" (endpoint (receiver p)) data = Err e ->
    Outcome env entry p (Some e) p
| TransportFailed data req0 e :
    logrus.Format (time_Format env) (json_Encode env) formatter entry = Ok data ->
    http.NewRequest (url_Parse env) "POST" (endpoint (receiver p)) data = Ok req0 ->
    RoundTrip env (dress (apiKey (receiver p)) req0) = Err e ->
    Outcome env entry p (Some e)
      (after_send p (dress (apiKey (receiver p)) req0))
| Created data req0 resp :
    logrus.Format (time_Format env) (json_Encode env) formatter entry = Ok data ->
    http.NewRequest (url_Parse env) "POST" (endpoint (receiver p)) data = Ok req0 ->
    RoundTrip env (dress (apiKey (receiver p)) req0) = Ok resp ->
    http.StatusCode resp = http.StatusCreated ->
    Outcome env entry p None
      (after_response p (dress (apiKey (receiver p)) req0))
| ResponseReadFailed data req0 resp e :
    logrus.Format (time_Format env) (json_Encode env) formatter entry = Ok data ->
    http.NewRequest (url_Parse env) "POST" (endpoint (receiver p)) data = Ok req0 ->
    RoundTrip env (dress (apiKey (receiver p)) req0) = Ok resp ->
    http.StatusCode resp <> http.StatusCreated ->
    http.RespBody resp = Err e ->
    Outcome env entry p (Some e)
      (after_response p (dress (apiKey (receiver p)) req0))
| ServerRejected data req0 resp body :
    logrus.Format (time_Format env) (json_Encode env) formatter entry = Ok data ->
    http.NewRequest (url_Parse env) "POST" (endpoint (receiver p)) data = Ok req0 ->
    RoundTrip env (dress (apiKey (receiver p)) req0) = Ok resp ->
    http.StatusCode resp <> http.StatusCreated ->
    http.RespBody resp = Ok body ->
    Outcome env entry p
      (Some (errorString "fmt" ("error creating seq event: " +:+ body)))
      (after_response p (dress (apiKey (receiver p)) req0)).

(** The caller keys that [Format] writes after the three fixed ones. *)
Definition with_caller (entry : logrus.Entry)
    (data : gmap string logrus.Value) : gmap string logrus.Value :=
  match logrus.Caller entry with
  | Some frame =>
      if logrus.HasCaller entry then
        let data :=
          if bool_decide (logrus.Function frame = "") then data
          else <["func" := logrus.VString (logrus.Function frame)]> data in
        if bool_decide
             (logrus.File frame +:+ ":" +:+ pretty (logrus.Line frame) = "")
        then data
        else <["file" :=
                 logrus.VString
                   (logrus.File frame +:+ ":" +:+ pretty (logrus.Line frame))]>
               data
      else data
  | None => data
  end.

(** ** Vocabulary of the further properties *)

(** The two options the package exports, as data. *)
Inductive Setting : Type :=
| SetAPIKey (k : string)
| SetLevels (l : list logrus.Level).

Definition configurator (s : Setting) : Configurator :=
  match s with
  | SetAPIKey k => OptionAPIKey k
  | SetLevels l => OptionLevels l
  end.

(** The key, respectively the level list, that the last matching
    setting of a list gives, [d] when there is none. *)
Fixpoint last_apiKey (ss : list Setting) (d : string) : string :=
  match ss with
  | [] => d
  | SetAPIKey k :: ss' => last_apiKey ss' k
  | SetLevels _ :: ss' => last_apiKey ss' d
  end.

Fixpoint last_levels (ss : list Setting) (d : list logrus.Level)
  : list logrus.Level :=
  match ss with
  | [] => d
  | SetAPIKey _ :: ss' => last_levels ss' d
  | SetLevels l :: ss' => last_levels ss' l
  end.

(** The process [p] with the level list of its hook replaced. *)
Definition with_levels (lv : list logrus.Level) (p : Process) : Process :=
  {| receiver := {| endpoint := endpoint (receiver p);
                    apiKey := apiKey (receiver p);
                    levels := lv |};
     sent := sent p; opened := opened p; closed := closed p |}.

(** The collaborators [env], except that closing a body never fails. *)
Definition quiet_close (env : Env) : Env :=
  {| time_Format := time_Format env;
     json_Encode := json_Encode env;
     url_Parse := url_Parse env;
     RoundTrip := fun req =>
       match RoundTrip env req with
       | Ok resp =>
           Ok {| http.StatusCode := http.StatusCode resp;
                 http.RespBody := http.RespBody resp;
                 http.CloseErr := None |}
       | Err e => Err e
       end |}.

(** * Verification *)

(** ** Formatting *)

Lemma append_empty_r (s : string) : s +:+ "" = s.
Proof.
  induction s as [|c s IH]; [reflexivity|].
  change (String c s +:+ "") with (String c (s +:+ "")). by rewrite IH.
Qed.

Lemma Sprintf_endpoint (host : string) :
  fmt.Sprintf "%v/api/events/raw" [host] = host +:+ "/api/events/raw".
Proof. reflexivity. Qed.

Lemma Errorf_rejection (body : string) :
  fmt.Errorf "error creating seq event: %v" [body] =
  errorString "fmt" ("error creating seq event: " +:+ body).
Proof.
  unfold fmt.Errorf. f_equal.
  transitivity ("error creating seq event: " +:+ (body +:+ ""));
    [reflexivity | by rewrite append_empty_r].
Qed.

(** ** Construction *)

Lemma apply_options_snoc (opts : list Configurator) (opt : Configurator)
    (sho : SeqHookOptions) :
  apply_options (opts ++ [opt]) sho = opt (apply_options opts sho).
Proof. unfold apply_options. by rewrite fold_left_app. Qed.

Lemma apply_options_app (pre post : list Configurator) (sho : SeqHookOptions) :
  apply_options (pre ++ post) sho = apply_options post (apply_options pre sho).
Proof. unfold apply_options. by rewrite fold_left_app. Qed.

Lemma apply_options_keeps_levels (opts : list Configurator) :
  Forall keeps_levels opts ->
  forall sho, opt_levels (apply_options opts sho) = opt_levels sho.
Proof.
  induction 1 as [|opt opts Hopt _ IH]; intros sho; [reflexivity|].
  change (apply_options (opt :: opts) sho) with (apply_options opts (opt sho)).
  by rewrite IH.
Qed.

Lemma apply_options_keeps_apiKey (opts : list Configurator) :
  Forall keeps_apiKey opts ->
  forall sho, opt_apiKey (apply_options opts sho) = opt_apiKey sho.
Proof.
  induction 1 as [|opt opts Hopt _ IH]; intros sho; [reflexivity|].
  change (apply_options (opt :: opts) sho) with (apply_options opts (opt sho)).
  by rewrite IH.
Qed.

Lemma OptionAPIKey_keeps_levels (k : string) : keeps_levels (OptionAPIKey k).
Proof. by intros o. Qed.

Lemma OptionLevels_keeps_apiKey (lvls : list logrus.Level) :
  keeps_apiKey (OptionLevels lvls).
Proof. by intros o. Qed.

Example new_hook_default :
  NewSeqHook "http://localhost:5341" [] =
  mkSeqHook "http://localhost:5341/api/events/raw" "" [6;5;4;3;2;1;0]%N.
Proof. reflexivity. Qed.

Example new_hook_levels_then_key :
  NewSeqHook "h" [OptionLevels [logrus.WarnLevel; logrus.ErrorLevel];
                  OptionAPIKey "k1"] =
  mkSeqHook "h/api/events/raw" "k1" [3;2]%N.
Proof. reflexivity. Qed.

(** C4: a hook built without the level option accepts exactly the seven
    standard levels.  Whatever options it was built from, as long as
    none of them assigns the level set (no option at all, or API-key
    options only), [Levels] returns the seven levels in the order Trace,
    Debug, Info, Warn, Error, Fatal, Panic, without repetition, and a
    level is in the result exactly when it is one of
    [logrus.AllLevels]. *)
Theorem default_levels_are_all_seven (host : string)
    (opts : list Configurator) :
  Forall keeps_levels opts ->
  Levels (NewSeqHook host opts) =
    [logrus.TraceLevel; logrus.DebugLevel; logrus.InfoLevel;
     logrus.WarnLevel; logrus.ErrorLevel; logrus.FatalLevel;
     logrus.PanicLevel]
  /\ NoDup (Levels (NewSeqHook host opts))
  /\ List.length (Levels (NewSeqHook host opts)) = 7%nat
  /\ (forall l, l ∈ Levels (NewSeqHook host opts) <-> l ∈ logrus.AllLevels)
  /\ Levels (NewSeqHook host opts) = Levels (NewSeqHook host []).
Proof.
  intros Hopts.
  assert (Hlv : Levels (NewSeqHook host opts) = Levels (NewSeqHook host [])).
  { unfold Levels, NewSeqHook; cbn [levels].
    by rewrite apply_options_keeps_levels. }
  rewrite Hlv.
  split; [reflexivity|]. split; [|split; [reflexivity|split; [|reflexivity]]].
  - cbn. compute_done.
  - intros l.
    change (Levels (NewSeqHook host [])) with (reverse logrus.AllLevels).
    apply elem_of_reverse.
Qed.

Lemma default_levels_are_all_seven_witness :
  Levels (NewSeqHook "http://localhost:5341"
            [OptionAPIKey "k1"; OptionAPIKey "k2"]) =
    [logrus.TraceLevel; logrus.DebugLevel; logrus.InfoLevel;
     logrus.WarnLevel; logrus.ErrorLevel; logrus.FatalLevel;
     logrus.PanicLevel].
Proof.
  refine (proj1 (default_levels_are_all_seven "http://localhost:5341"
                   [OptionAPIKey "k1"; OptionAPIKey "k2"] _)).
  repeat constructor.
Defined.

(** C5: when the level option is given with the list [lvls], [Levels]
    returns [lvls] itself, whatever options came before it and whatever
    options that do not assign the level set come after it; nothing of
    the default set is left or merged in. *)
Theorem configured_levels_returned_verbatim (host : string)
    (lvls : list logrus.Level) (pre post : list Configurator) :
  Forall keeps_levels post ->
  Levels (NewSeqHook host (pre ++ OptionLevels lvls :: post)) = lvls.
Proof.
  intros Hpost. unfold Levels, NewSeqHook. cbn [levels].
  rewrite apply_options_app.
  change (apply_options (OptionLevels lvls :: post) ?o)
    with (apply_options post (OptionLevels lvls o)).
  by rewrite apply_options_keeps_levels.
Qed.

Lemma configured_levels_returned_verbatim_witness :
  Forall keeps_levels [OptionAPIKey "k1"]
  /\ Levels (NewSeqHook "http://localhost:5341"
               ([OptionLevels [logrus.InfoLevel]]
                ++ OptionLevels [logrus.WarnLevel; logrus.ErrorLevel]
                   :: [OptionAPIKey "k1"]))
     = [logrus.WarnLevel; logrus.ErrorLevel].
Proof.
  assert (H : Forall keeps_levels [OptionAPIKey "k1"]).
  { repeat constructor. }
  split; [exact H|].
  exact (configured_levels_returned_verbatim "http://localhost:5341"
           [logrus.WarnLevel; logrus.ErrorLevel]
           [OptionLevels [logrus.InfoLevel]] [OptionAPIKey "k1"] H).
Defined.

(** C7: the endpoint of a constructed hook is the host string followed
    by [/api/events/raw], whatever the options; for the host
    [http://localhost:5341] it is [http://localhost:5341/api/events/raw]. *)
Theorem endpoint_is_host_with_suffix (host : string)
    (opts : list Configurator) :
  endpoint (NewSeqHook host opts) = host +:+ "/api/events/raw"
  /\ endpoint (NewSeqHook "http://localhost:5341" opts) =
       "http://localhost:5341/api/events/raw".
Proof. split; reflexivity. Qed.

(** C8: options are applied in sequence and the last assignment of a
    field wins; the level option and the API-key option assign different
    fields, so after any common prefix of options they give the same
    hook in either order, with level set [lvls] and API key [k]. *)
Theorem options_last_write_wins_and_commute (host : string)
    (lvls : list logrus.Level) (k : string) (pre : list Configurator) :
  NewSeqHook host (pre ++ [OptionLevels lvls; OptionAPIKey k]) =
    NewSeqHook host (pre ++ [OptionAPIKey k; OptionLevels lvls])
  /\ Levels (NewSeqHook host (pre ++ [OptionLevels lvls; OptionAPIKey k])) = lvls
  /\ apiKey (NewSeqHook host (pre ++ [OptionLevels lvls; OptionAPIKey k])) = k
  /\ (forall lvls', Levels (NewSeqHook host
                           (pre ++ [OptionLevels lvls'; OptionLevels lvls])) = lvls)
  /\ (forall k', apiKey (NewSeqHook host
                           (pre ++ [OptionAPIKey k'; OptionAPIKey k])) = k).
Proof.
  unfold Levels, NewSeqHook; cbn [levels apiKey].
  repeat split; intros; rewrite ?apply_options_app; reflexivity.
Qed.

(** ** Delivery *)

(** Every call of [Fire] leaves through one of its six exits. *)
Lemma Fire_outcome (env : Env) (entry : logrus.Entry) (p : Process) :
  Outcome env entry p (fst (Fire env entry p)) (snd (Fire env entry p)).
Proof.
  unfold Fire.
  destruct (logrus.Format _ _ _ _) as [data|e] eqn:Hfmt; cbn;
    [|by apply EncodingFailed].
  unfold bind, load at 1; cbn.
  destruct (http.NewRequest _ _ _ _) as [req0|e] eqn:Hreq; cbn;
    [|by eapply RequestConstructionFailed].
  unfold bind, load, Do; cbn.
  fold (dress (apiKey (receiver p)) req0).
  assert (Hdress :
    (if negb (bool_decide (apiKey (receiver p) = ""))
     then {| http.Method := http.Method req0; http.URL := http.URL req0;
             http.Header :=
               http.Header_Add
                 (http.Header_Set (http.Header req0) "Content-Type"
                    "application/vnd.serilog.clef")
                 "X-Seq-ApiKey" (apiKey (receiver p));
             http.Body := http.Body req0 |}
     else {| http.Method := http.Method req0; http.URL := http.URL req0;
             http.Header :=
               http.Header_Set (http.Header req0) "Content-Type"
                 "application/vnd.serilog.clef";
             http.Body := http.Body req0 |})
    = dress (apiKey (receiver p)) req0).
  { unfold dress. by destruct (bool_decide _). }
  rewrite Hdress.
  destruct (RoundTrip env _) as [resp|e] eqn:Hrt; cbn;
    [|by eapply TransportFailed].
  destruct (bool_decide (http.StatusCode resp = http.StatusCreated)) eqn:Hst;
    cbn.
  - apply bool_decide_eq_true in Hst. by eapply Created.
  - apply bool_decide_eq_false in Hst. unfold ReadAll.
    destruct (http.RespBody resp) as [body|e] eqn:Hbody; cbn.
    + rewrite Errorf_rejection. by eapply ServerRejected.
    + by eapply ResponseReadFailed.
Qed.

(** A call hands at most one request to the client. *)
Lemma Outcome_sent env entry p r p' :
  Outcome env entry p r p' ->
  sent p' = sent p
  \/ exists data req0,
       logrus.Format (time_Format env) (json_Encode env) formatter entry = Ok data
       /\ http.NewRequest (url_Parse env) "POST" (endpoint (receiver p)) data
          = Ok req0
       /\ sent p' = (sent p ++ [dress (apiKey (receiver p)) req0])%list.
Proof. destruct 1; eauto 6. Qed.

Lemma sent_grows_not (l : list http.Request) (req : http.Request) :
  l <> (l ++ [req])%list.
Proof.
  intros H. apply (f_equal List.length) in H.
  rewrite length_app in H. cbn in H. lia.
Qed.

(** What [answered] says in terms of the exits. *)
Lemma answered_inv env entry p req resp :
  answered env entry p req resp ->
  exists data req0,
    logrus.Format (time_Format env) (json_Encode env) formatter entry = Ok data
    /\ http.NewRequest (url_Parse env) "POST" (endpoint (receiver p)) data
       = Ok req0
    /\ req = dress (apiKey (receiver p)) req0
    /\ RoundTrip env (dress (apiKey (receiver p)) req0) = Ok resp.
Proof.
  intros [Hsent Hrt].
  destruct (Outcome_sent _ _ _ _ _ (Fire_outcome env entry p))
    as [Heq|(data & req0 & Hf & Hr & Heq)]; rewrite Heq in Hsent.
  - by apply sent_grows_not in Hsent.
  - apply app_inj_tail in Hsent as [_ <-]. eauto 6.
Qed.

(** Case analysis of a call of [Fire] by its exit. *)
Ltac fire_cases env entry p :=
  let H := fresh "Hout" in
  pose proof (Fire_outcome env entry p) as H;
  destruct (Fire env entry p) as [? ?]; cbn [fst snd] in *;
  inversion H; subst; clear H;
  unfold http.StatusCreated in *; try congruence.

Example reject_500 :
  fst (run (sample.endpoint_env 500 (Ok "internal error")) sample.hook
         (sample.entry ∅)) =
  Some (errorString "fmt" "error creating seq event: internal error").
Proof. reflexivity. Qed.

Example accept_201 :
  run (sample.endpoint_env 201 (Ok "")) sample.hook (sample.entry ∅) =
  (None,
   {| receiver := sample.hook;
      sent := [ {| http.Method := "POST";
                   http.URL := "http://localhost:5341/api/events/raw";
                   http.Header :=
                     {[ "Content-Type" := ["application/vnd.serilog.clef"] ]};
                   http.Body := "{}" |} ];
      opened := 1; closed := 1 |}).
Proof. reflexivity. Qed.

Example unreachable_endpoint :
  fst (run sample.unreachable_env sample.hook (sample.entry ∅)) =
  Some (errorString "net" "dial tcp: connection refused").
Proof. reflexivity. Qed.

(** C1 (as amended): when the endpoint answers a delivery with a status
    other than 201 and the body of the answer can be read, [Fire]
    returns the error whose text is [error creating seq event: ]
    followed by the raw body.  The text is built from the body alone;
    the status is not part of the error. *)
Theorem rejection_error_is_prefix_and_body (env : Env)
    (entry : logrus.Entry) (p : Process) (req : http.Request)
    (resp : http.Response) (body : string) :
  answered env entry p req resp ->
  http.StatusCode resp <> http.StatusCreated ->
  http.RespBody resp = Ok body ->
  fst (Fire env entry p) =
    Some (errorString "fmt" ("error creating seq event: " +:+ body))
  /\ forall e, fst (Fire env entry p) = Some e ->
       Error e = "error creating seq event: " +:+ body.
Proof.
  intros Hans Hst Hbody.
  apply answered_inv in Hans as (data & req0 & Hf & Hr & -> & Hrt).
  assert (Hfire : fst (Fire env entry p) =
                  Some (errorString "fmt" ("error creating seq event: " +:+ body))).
  { fire_cases env entry p. }
  split; [exact Hfire|].
  intros e He. rewrite Hfire in He. by injection He as <-.
Qed.

Lemma rejection_error_is_prefix_and_body_witness :
  fst (Fire (sample.endpoint_env 500 (Ok "internal error")) (sample.entry ∅)
         (start sample.hook)) =
    Some (errorString "fmt" "error creating seq event: internal error").
Proof.
  refine (proj1 (rejection_error_is_prefix_and_body
            (sample.endpoint_env 500 (Ok "internal error")) (sample.entry ∅)
            (start sample.hook)
            {| http.Method := "POST";
               http.URL := "http://localhost:5341/api/events/raw";
               http.Header :=
                 {[ "Content-Type" := ["application/vnd.serilog.clef"] ]};
               http.Body := "{}" |}
            {| http.StatusCode := 500; http.RespBody := Ok "internal error";
               http.CloseErr := None |}
            "internal error" _ _ _)).
  - split; reflexivity.
  - unfold http.StatusCreated; cbn; lia.
  - reflexivity.
Defined.

(** C1 (as stated) fails: for the 500 answer with body [internal error]
    the returned error reads [error creating seq event: internal error],
    in which 500 does not occur, and a 404 answer with the same body
    gives the very same error, so no status can be read off the error. *)
Lemma rejection_error_omits_status :
  fst (run (sample.endpoint_env 500 (Ok "internal error")) sample.hook
         (sample.entry ∅)) =
    Some (errorString "fmt" "error creating seq event: internal error")
  /\ contains "500" "error creating seq event: internal error" = false
  /\ fst (run (sample.endpoint_env 404 (Ok "internal error")) sample.hook
            (sample.entry ∅)) =
     fst (run (sample.endpoint_env 500 (Ok "internal error")) sample.hook
            (sample.entry ∅))
  /\ ~ exists status_of : error -> Z, reads_status status_of.
Proof.
  split; [reflexivity|]. split; [reflexivity|]. split; [reflexivity|].
  intros [status_of H].
  set (req := {| http.Method := "POST";
                 http.URL := "http://localhost:5341/api/events/raw";
                 http.Header :=
                   {[ "Content-Type" := ["application/vnd.serilog.clef"] ]};
                 http.Body := "{}" |}).
  set (e := errorString "fmt" "error creating seq event: internal error").
  assert (H500 : status_of e = 500%Z).
  { apply (H (sample.endpoint_env 500 (Ok "internal error")) (sample.entry ∅)
             (start sample.hook) req
             {| http.StatusCode := 500; http.RespBody := Ok "internal error";
               http.CloseErr := None |}
             "internal error"); try reflexivity.
    - split; reflexivity.
    - unfold http.StatusCreated; cbn; lia. }
  assert (H404 : status_of e = 404%Z).
  { apply (H (sample.endpoint_env 404 (Ok "internal error")) (sample.entry ∅)
             (start sample.hook) req
             {| http.StatusCode := 404; http.RespBody := Ok "internal error";
               http.CloseErr := None |}
             "internal error"); try reflexivity.
    - split; reflexivity.
    - unfold http.StatusCreated; cbn; lia. }
  rewrite H500 in H404. discriminate.
Qed.

(** C2: [Fire] returns [nil] exactly when the entry was serialized, the
    request was constructed, the round trip gave a response and that
    response has status 201.  Every failure on the way is the returned
    error: the formatter's, the request constructor's, the client's, the
    body reader's, or the rejection built from the body.  A 201 answer
    with an empty body gives [nil], whatever closing the body returns. *)
Theorem Fire_nil_iff_created (env : Env) (entry : logrus.Entry)
    (p : Process) :
  (fst (Fire env entry p) = None <->
     exists data req0 req resp,
       logrus.Format (time_Format env) (json_Encode env) formatter entry
         = Ok data
       /\ http.NewRequest (url_Parse env) "POST" (endpoint (receiver p)) data
          = Ok req0
       /\ answered env entry p req resp
       /\ http.StatusCode resp = 201%Z)
  /\ (forall e,
        logrus.Format (time_Format env) (json_Encode env) formatter entry
          = Err e ->
        fst (Fire env entry p) = Some e)
  /\ (forall data e,
        logrus.Format (time_Format env) (json_Encode env) formatter entry
          = Ok data ->
        http.NewRequest (url_Parse env) "POST" (endpoint (receiver p)) data
          = Err e ->
        fst (Fire env entry p) = Some e)
  /\ (forall req e,
        sent (snd (Fire env entry p)) = (sent p ++ [req])%list ->
        RoundTrip env req = Err e ->
        fst (Fire env entry p) = Some e)
  /\ (forall req resp,
        answered env entry p req resp ->
        http.StatusCode resp <> 201%Z ->
        exists e, fst (Fire env entry p) = Some e
                  /\ (http.RespBody resp = Err e
                      \/ exists body, http.RespBody resp = Ok body
                           /\ e = fmt.Errorf "error creating seq event: %v" [body]))
  /\ (forall req c,
        answered env entry p req
          {| http.StatusCode := 201; http.RespBody := Ok "";
             http.CloseErr := c |} ->
        fst (Fire env entry p) = None).
Proof.
  split; [split|].
  - intros Hnil.
    pose proof (Fire_outcome env entry p) as Hout.
    unfold answered.
    destruct (Fire env entry p) as [r p']; cbn [fst snd] in *; subst r.
    inversion Hout; subst.
    exists data, req0, (dress (apiKey (receiver p)) req0), resp.
    by repeat split.
  - intros (data & req0 & req & resp & Hf & Hr & Hans & Hst).
    apply answered_inv in Hans as (data' & req0' & Hf' & Hr' & -> & Hrt).
    fire_cases env entry p.
  - repeat split.
    + intros e Hf. fire_cases env entry p.
    + intros data e Hf Hr. fire_cases env entry p.
    + intros req e Hsent Hrt.
      destruct (Outcome_sent _ _ _ _ _ (Fire_outcome env entry p))
        as [Heq|(data & req0 & Hf & Hr & Heq)]; rewrite Heq in Hsent.
      * by apply sent_grows_not in Hsent.
      * apply app_inj_tail in Hsent as [_ <-].
        fire_cases env entry p.
    + intros req resp Hans Hst.
      apply answered_inv in Hans as (data & req0 & Hf & Hr & -> & Hrt).
      fire_cases env entry p.
      * eexists; split; [reflexivity|]. left. congruence.
      * eexists; split; [reflexivity|]. right.
        exists body. rewrite Errorf_rejection. split; congruence.
    + intros req c Hans.
      apply answered_inv in Hans as (data & req0 & Hf & Hr & -> & Hrt).
      fire_cases env entry p.
      all: match goal with
           | H : http.StatusCode ?r <> _ |- _ =>
               assert (r = {| http.StatusCode := 201; http.RespBody := Ok "";
                              http.CloseErr := c |})
                 by congruence;
               subst r; by cbn in H
           end.
Qed.

(** C9: whichever exit a call of [Fire] takes, the hook behind the
    receiver is afterwards what it was before: endpoint, API key and
    level set are untouched.  What changes is the process around it: at
    most one request went out, and every body opened was closed. *)
Theorem Fire_leaves_hook_unchanged (env : Env) (entry : logrus.Entry)
    (p : Process) :
  receiver (snd (Fire env entry p)) = receiver p
  /\ endpoint (receiver (snd (Fire env entry p))) = endpoint (receiver p)
  /\ apiKey (receiver (snd (Fire env entry p))) = apiKey (receiver p)
  /\ Levels (receiver (snd (Fire env entry p))) = Levels (receiver p)
  /\ (opened (snd (Fire env entry p)) - opened p
      = closed (snd (Fire env entry p)) - closed p)%nat.
Proof.
  assert (H : receiver (snd (Fire env entry p)) = receiver p
              /\ (opened (snd (Fire env entry p)) - opened p
                  = closed (snd (Fire env entry p)) - closed p)%nat).
  { fire_cases env entry p; cbn; split; try reflexivity; lia. }
  destruct H as [H Hoc]. by rewrite H.
Qed.

Lemma Fire_nil_iff_created_witness :
  fst (Fire (sample.endpoint_env 201 (Ok "")) (sample.entry ∅)
         (start sample.hook)) = None.
Proof.
  refine (proj2 (proj2 (proj2 (proj2 (proj2
            (Fire_nil_iff_created (sample.endpoint_env 201 (Ok ""))
               (sample.entry ∅) (start sample.hook))))))
            {| http.Method := "POST";
               http.URL := "http://localhost:5341/api/events/raw";
               http.Header :=
                 {[ "Content-Type" := ["application/vnd.serilog.clef"] ]};
               http.Body := "{}" |} None _).
  split; reflexivity.
Defined.

(** ** The request on the wire *)

(** A request fresh from [http.NewRequest] has the method, URL and body
    it was given and no header. *)
Lemma NewRequest_POST (url_Parse : string -> option error)
    (url body : string) (req0 : http.Request) :
  http.NewRequest url_Parse "POST" url body = Ok req0 ->
  req0 = {| http.Method := "POST"; http.URL := url; http.Header := ∅;
            http.Body := body |}.
Proof.
  unfold http.NewRequest. cbn.
  destruct (url_Parse url); [discriminate|]. by intros [= <-].
Qed.

Lemma canonical_api_key_header :
  http.CanonicalMIMEHeaderKey "X-Seq-ApiKey" = "X-Seq-Apikey".
Proof. reflexivity. Qed.

Lemma canonical_content_type :
  http.CanonicalMIMEHeaderKey "Content-Type" = "Content-Type".
Proof. reflexivity. Qed.

(** The headers of the dressed request: the content type alone for an
    empty key, the content type and the key otherwise. *)
Lemma dress_header (key : string) (req0 : http.Request) :
  http.Header req0 = ∅ ->
  http.Header (dress key req0) =
    if bool_decide (key = "")
    then {[ "Content-Type" := ["application/vnd.serilog.clef"] ]}
    else <["X-Seq-Apikey" := [key]]>
           {[ "Content-Type" := ["application/vnd.serilog.clef"] ]}.
Proof.
  intros H0. unfold dress; cbn [http.Header]. rewrite H0.
  destruct (bool_decide (key = "")); [reflexivity|].
  unfold http.Header_Add, http.Header_Set.
  rewrite canonical_api_key_header, canonical_content_type.
  by rewrite lookup_insert_ne.
Qed.

(** The API-key header of a request that [Fire] sent, by the hook's key. *)
Lemma sent_request_api_key (env : Env) (entry : logrus.Entry) (p : Process)
    (req : http.Request) :
  sent (snd (Fire env entry p)) = (sent p ++ [req])%list ->
  http.Header req !! "X-Seq-Apikey" =
    if bool_decide (apiKey (receiver p) = "") then None
    else Some [apiKey (receiver p)].
Proof.
  intros Hsent.
  destruct (Outcome_sent _ _ _ _ _ (Fire_outcome env entry p))
    as [Heq|(data & req0 & Hf & Hr & Heq)]; rewrite Heq in Hsent.
  { by apply sent_grows_not in Hsent. }
  apply app_inj_tail in Hsent as [_ <-].
  apply NewRequest_POST in Hr. rewrite dress_header by by rewrite Hr.
  destruct (bool_decide _); [done|]. by rewrite lookup_insert_eq.
Qed.

Example sent_with_key :
  sent (snd (run (sample.endpoint_env 201 (Ok ""))
               (NewSeqHook "http://localhost:5341" [OptionAPIKey "k1"])
               (sample.entry ∅))) =
  [ {| http.Method := "POST";
       http.URL := "http://localhost:5341/api/events/raw";
       http.Header :=
         <["X-Seq-Apikey" := ["k1"]]>
           {[ "Content-Type" := ["application/vnd.serilog.clef"] ]};
       http.Body := "{}" |} ].
Proof. reflexivity. Qed.

(** C6: a request sent by a hook that was constructed with the API-key
    option at a non-empty value [k] (followed only by options that leave
    the key alone) carries the header [X-Seq-ApiKey] with the single
    value [k]; a request sent by a hook constructed from options that
    never assign the key carries no such header.  Header names are
    looked up as Go does, by their canonical spelling. *)
Theorem api_key_header_follows_credential (env : Env)
    (entry : logrus.Entry) (p : Process) (req : http.Request)
    (host k : string) (pre post : list Configurator) :
  sent (snd (Fire env entry p)) = (sent p ++ [req])%list ->
  Forall keeps_apiKey post ->
  (receiver p = NewSeqHook host (pre ++ OptionAPIKey k :: post) ->
   k <> "" ->
   http.Header_Values (http.Header req) "X-Seq-ApiKey" = [k]
   /\ http.Header_Get (http.Header req) "X-Seq-ApiKey" = k)
  /\ (receiver p = NewSeqHook host post ->
      http.Header req !! http.CanonicalMIMEHeaderKey "X-Seq-ApiKey" = None
      /\ http.Header_Values (http.Header req) "X-Seq-ApiKey" = []).
Proof.
  intros Hsent Hpost.
  pose proof (sent_request_api_key env entry p req Hsent) as Hkey.
  unfold http.Header_Get, http.Header_Values.
  rewrite canonical_api_key_header, Hkey.
  split.
  - intros Hrecv Hk.
    assert (Hk' : apiKey (receiver p) = k).
    { rewrite Hrecv. unfold NewSeqHook; cbn [apiKey].
      rewrite apply_options_app.
      change (apply_options (OptionAPIKey k :: post) ?o)
        with (apply_options post (OptionAPIKey k o)).
      by rewrite apply_options_keeps_apiKey. }
    rewrite Hk'. by rewrite bool_decide_eq_false_2.
  - intros Hrecv.
    assert (Hk' : apiKey (receiver p) = "").
    { rewrite Hrecv. unfold NewSeqHook; cbn [apiKey].
      by rewrite apply_options_keeps_apiKey. }
    rewrite Hk'. by rewrite bool_decide_eq_true_2.
Qed.

Lemma api_key_header_follows_credential_witness :
  http.Header_Values
    (<["X-Seq-Apikey" := ["k1"]]>
       {[ "Content-Type" := ["application/vnd.serilog.clef"] ]})
    "X-Seq-ApiKey" = ["k1"]
  /\ http.Header_Get
       (<["X-Seq-Apikey" := ["k1"]]>
          {[ "Content-Type" := ["application/vnd.serilog.clef"] ]})
       "X-Seq-ApiKey" = "k1".
Proof.
  refine (proj1 (api_key_header_follows_credential
            (sample.endpoint_env 201 (Ok "")) (sample.entry ∅)
            (start (NewSeqHook "http://localhost:5341" [OptionAPIKey "k1"]))
            {| http.Method := "POST";
               http.URL := "http://localhost:5341/api/events/raw";
               http.Header :=
                 <["X-Seq-Apikey" := ["k1"]]>
                   {[ "Content-Type" := ["application/vnd.serilog.clef"] ]};
               http.Body := "{}" |}
            "http://localhost:5341" "k1" [] [] _ _) _ _).
  - reflexivity.
  - constructor.
  - reflexivity.
  - discriminate.
Defined.

(** C10: the API-key option at the empty string builds the hook that no
    option builds, so the two deliver alike; a hook whose last key
    assignment is the empty string sends no [X-Seq-ApiKey] header; and
    no hook at all ever sends the empty string as the value of that
    header. *)
Theorem empty_api_key_sends_no_header (env : Env) (entry : logrus.Entry)
    (host : string) (opts : list Configurator) :
  NewSeqHook host [OptionAPIKey ""] = NewSeqHook host []
  /\ run env (NewSeqHook host [OptionAPIKey ""]) entry
     = run env (NewSeqHook host []) entry
  /\ apiKey (NewSeqHook host (opts ++ [OptionAPIKey ""])) = ""
  /\ (forall p req,
        receiver p = NewSeqHook host (opts ++ [OptionAPIKey ""]) ->
        sent (snd (Fire env entry p)) = (sent p ++ [req])%list ->
        http.Header req !! http.CanonicalMIMEHeaderKey "X-Seq-ApiKey" = None
        /\ http.Header_Values (http.Header req) "X-Seq-ApiKey" = [])
  /\ (forall p req,
        sent (snd (Fire env entry p)) = (sent p ++ [req])%list ->
        "" ∉ http.Header_Values (http.Header req) "X-Seq-ApiKey").
Proof.
  assert (Hkey : apiKey (NewSeqHook host (opts ++ [OptionAPIKey ""])) = "").
  { unfold NewSeqHook; cbn [apiKey]. by rewrite apply_options_app. }
  split; [reflexivity|]. split; [reflexivity|]. split; [exact Hkey|].
  split.
  - intros p req Hrecv Hsent.
    pose proof (sent_request_api_key env entry p req Hsent) as H.
    unfold http.Header_Values. rewrite canonical_api_key_header, H.
    by rewrite Hrecv, Hkey.
  - intros p req Hsent.
    pose proof (sent_request_api_key env entry p req Hsent) as H.
    unfold http.Header_Values. rewrite canonical_api_key_header, H.
    case_bool_decide as Hk; cbn.
    + apply not_elem_of_nil.
    + intros Hin. apply list_elem_of_singleton in Hin. congruence.
Qed.

(** ** The serialized record *)

Lemma move_clash_other (key k : string) (data : gmap string logrus.Value) :
  k <> key -> k <> "fields." +:+ key ->
  logrus.move_clash key data !! k = data !! k.
Proof.
  intros H1 H2. unfold logrus.move_clash.
  destruct (data !! key); [|reflexivity].
  by rewrite lookup_delete_ne, lookup_insert_ne.
Qed.

Lemma move_clash_prefixed (key : string) (v : logrus.Value)
    (data : gmap string logrus.Value) :
  key <> "fields." +:+ key ->
  data !! key = Some v ->
  logrus.move_clash key data !! ("fields." +:+ key) = Some v.
Proof.
  intros Hne Hv. unfold logrus.move_clash. rewrite Hv.
  by rewrite lookup_delete_ne, lookup_insert_eq.
Qed.

Lemma copy_clash_other (key k : string) (data : gmap string logrus.Value) :
  k <> "fields." +:+ key ->
  logrus.copy_clash key data !! k = data !! k.
Proof.
  intros H. unfold logrus.copy_clash.
  destruct (data !! key); [|reflexivity]. by rewrite lookup_insert_ne.
Qed.

(** A key is also kept by a step that finds nothing to move onto it. *)
Lemma move_clash_free (key k : string) (data : gmap string logrus.Value) :
  k <> key -> (k = "fields." +:+ key -> data !! key = None) ->
  logrus.move_clash key data !! k = data !! k.
Proof.
  intros H1 H2. unfold logrus.move_clash.
  destruct (data !! key) eqn:Hkey; [|reflexivity].
  rewrite lookup_delete_ne by done. apply lookup_insert_ne.
  intros <-. by specialize (H2 eq_refl).
Qed.

Lemma copy_clash_free (key k : string) (data : gmap string logrus.Value) :
  (k = "fields." +:+ key -> data !! key = None) ->
  logrus.copy_clash key data !! k = data !! k.
Proof.
  intros H. unfold logrus.copy_clash.
  destruct (data !! key) eqn:Hkey; [|reflexivity].
  apply lookup_insert_ne. intros <-. by specialize (H eq_refl).
Qed.

(** The keys [Fire]'s field map resolves to. *)
Lemma resolve_formatter :
  logrus.resolve (logrus.FieldMap formatter) logrus.FieldKeyTime = "@t"
  /\ logrus.resolve (logrus.FieldMap formatter) logrus.FieldKeyMsg = "@mt"
  /\ logrus.resolve (logrus.FieldMap formatter) logrus.FieldKeyLevel = "@l"
  /\ logrus.resolve (logrus.FieldMap formatter) logrus.FieldKeyLogrusError
     = "logrus_error"
  /\ logrus.resolve (logrus.FieldMap formatter) logrus.FieldKeyFunc = "func"
  /\ logrus.resolve (logrus.FieldMap formatter) logrus.FieldKeyFile = "file".
Proof. repeat split. Qed.

(** The record of [Fire], with the field map resolved. *)
Lemma record_of_unfold (env : Env) (entry : logrus.Entry) :
  record_of env entry =
  with_caller entry
    (<["@l" := logrus.VString (logrus.Level_String (logrus.EntryLevel entry))]>
       (<["@mt" := logrus.VString (logrus.Message entry)]>
          (<["@t" := logrus.VString
                       (time_Format env (logrus.Time entry) time.RFC3339Nano)]>
             (if bool_decide (logrus.err entry = "")
              then logrus.prefixFieldClashes
                     (logrus.flatten <$> logrus.Data entry)
                     (logrus.FieldMap formatter) (logrus.HasCaller entry)
              else <["logrus_error" := logrus.VString (logrus.err entry)]>
                     (logrus.prefixFieldClashes
                        (logrus.flatten <$> logrus.Data entry)
                        (logrus.FieldMap formatter)
                        (logrus.HasCaller entry)))))).
Proof. reflexivity. Qed.

(** Keys other than [func] and [file] are not touched by the caller step. *)
Lemma with_caller_other (entry : logrus.Entry)
    (data : gmap string logrus.Value) (k : string) :
  (logrus.HasCaller entry = true -> k <> "func" /\ k <> "file") ->
  with_caller entry data !! k = data !! k.
Proof.
  intros Hk. unfold with_caller.
  destruct (logrus.Caller entry) as [frame|]; [|reflexivity].
  destruct (logrus.HasCaller entry); [|reflexivity].
  destruct (Hk eq_refl) as [Hfunc Hfile].
  repeat case_bool_decide; by rewrite ?lookup_insert_ne.
Qed.

(** Lookup in the clash-prefixed fields at a name the formatter leaves
    alone. *)
Lemma prefixFieldClashes_other (entry : logrus.Entry) (k : string) :
  free_name entry k ->
  logrus.prefixFieldClashes (logrus.flatten <$> logrus.Data entry)
    (logrus.FieldMap formatter) (logrus.HasCaller entry) !! k
  = (logrus.flatten <$> logrus.Data entry) !! k.
Proof.
  intros Hfree. unfold logrus.prefixFieldClashes.
  destruct resolve_formatter as (-> & -> & -> & -> & -> & ->).
  set (data := logrus.flatten <$> logrus.Data entry).
  assert (Hres : forall r, r ∈ reserved entry ->
            k <> r /\ (k = "fields." +:+ r -> data !! r = None)).
  { intros r Hr. destruct (Hfree r Hr) as [Hne Hnone]. split; [done|].
    intros Hk. unfold data. by rewrite lookup_fmap, (Hnone Hk). }
  assert (Hbase : forall r, r ∈ ["@t"; "@mt"; "@l"; "logrus_error"] ->
            k <> r /\ (k = "fields." +:+ r -> data !! r = None)).
  { intros r Hr. apply Hres. unfold reserved. apply elem_of_app. by left. }
  destruct (Hbase "@t") as [? ?]; [by repeat constructor|].
  destruct (Hbase "@mt") as [? ?]; [by repeat constructor|].
  destruct (Hbase "@l") as [? ?]; [by repeat constructor|].
  destruct (Hbase "logrus_error") as [? ?]; [by repeat constructor|].
  assert (Hmoves :
    logrus.move_clash "logrus_error"
      (logrus.move_clash "@l"
         (logrus.move_clash "@mt" (logrus.move_clash "@t" data))) !! k
    = data !! k).
  { rewrite move_clash_free; [|done|]; [rewrite move_clash_free; [|done|]|];
      [rewrite move_clash_free; [|done|]|..]; [by apply move_clash_free|..];
      intros Hk; rewrite ?move_clash_other by done; auto. }
  destruct (logrus.HasCaller entry) eqn:Hc; [|exact Hmoves].
  assert (Hcall : forall r, r ∈ ["func"; "file"] ->
            k <> r /\ (k = "fields." +:+ r -> data !! r = None)).
  { intros r Hr. apply Hres. unfold reserved. rewrite Hc.
    apply elem_of_app. by right. }
  destruct (Hcall "func") as [? ?]; [by repeat constructor|].
  destruct (Hcall "file") as [? ?]; [by repeat constructor|].
  rewrite copy_clash_free; [rewrite copy_clash_free; [exact Hmoves|]|];
    intros Hk; rewrite ?copy_clash_other by done;
    rewrite ?move_clash_other by done; auto.
Qed.

(** A field stored under one of the three fixed keys is found under the
    prefixed key after clash handling. *)
Lemma prefixFieldClashes_prefixed (hc : bool) (k : string)
    (v : logrus.Value) (data : gmap string logrus.Value) :
  k ∈ ["@t"; "@mt"; "@l"] ->
  data !! k = Some v ->
  logrus.prefixFieldClashes data (logrus.FieldMap formatter) hc
    !! ("fields." +:+ k) = Some v.
Proof.
  intros Hk Hv. unfold logrus.prefixFieldClashes.
  destruct resolve_formatter as (-> & -> & -> & -> & -> & ->).
  assert (Hcases : k = "@t" \/ k = "@mt" \/ k = "@l").
  { rewrite !elem_of_cons in Hk. destruct Hk as [?|[?|[?|Hk]]]; auto.
    by apply not_elem_of_nil in Hk. }
  assert (Hcopy : forall d : gmap string logrus.Value,
            (if hc then logrus.copy_clash "file" (logrus.copy_clash "func" d)
             else d) !! ("fields." +:+ k) = d !! ("fields." +:+ k)).
  { intros d. destruct hc; [|reflexivity].
    destruct Hcases as [-> | [-> | ->]]; by rewrite !copy_clash_other. }
  rewrite Hcopy.
  destruct Hcases as [-> | [-> | ->]].
  - rewrite !(move_clash_other _ ("fields." +:+ "@t")) by done.
    by apply move_clash_prefixed.
  - rewrite !(move_clash_other _ ("fields." +:+ "@mt")) by done.
    apply move_clash_prefixed; [done|].
    by rewrite move_clash_other.
  - rewrite !(move_clash_other _ ("fields." +:+ "@l")) by done.
    apply move_clash_prefixed; [done|].
    by rewrite !move_clash_other.
Qed.

Lemma Format_encodes_record (env : Env) (entry : logrus.Entry)
    (data : string) :
  logrus.Format (time_Format env) (json_Encode env) formatter entry = Ok data ->
  json_Encode env (record_of env entry) = Ok data.
Proof.
  unfold logrus.Format, record_of.
  destruct (json_Encode env _); [congruence | discriminate].
Qed.

Lemma free_name_base (entry : logrus.Entry) (k : string) :
  free_name entry k ->
  k <> "@t" /\ k <> "@mt" /\ k <> "@l" /\ k <> "logrus_error"
  /\ (logrus.HasCaller entry = true -> k <> "func" /\ k <> "file").
Proof.
  intros Hfree.
  assert (Hbase : forall r, r ∈ ["@t"; "@mt"; "@l"; "logrus_error"] -> k <> r).
  { intros r Hr. apply Hfree. unfold reserved. apply elem_of_app. by left. }
  repeat split; try (apply Hbase; by repeat constructor).
  all: apply Hfree; unfold reserved; rewrite H; apply elem_of_app; right;
    by repeat constructor.
Qed.

Example record_keeps_prefixed_name :
  record_of (sample.endpoint_env 201 (Ok ""))
    (sample.entry (<["fields.@t" := logrus.VInt 7]> ∅)) !! "fields.@t"
  = Some (logrus.VInt 7).
Proof. reflexivity. Qed.

Example record_with_clash :
  map_to_list
    (record_of (sample.endpoint_env 201 (Ok ""))
       (sample.entry (<["@mt" := logrus.VInt 1]>
                        (<["user" := logrus.VString "ann"]> ∅)))) =
  [("user", logrus.VString "ann"); ("fields.@mt", logrus.VInt 1);
   ("@mt", logrus.VString "hello"); ("@l", logrus.VString "info");
   ("@t", logrus.VString "0")].
Proof. reflexivity. Qed.

(** C3 (as amended): the record [Fire] serializes holds the entry's
    message under [@mt], the name of its level under [@l] and its time,
    formatted by the RFC3339Nano layout, under [@t]; every field of the
    entry whose name the formatter leaves alone (it is none of [@t],
    [@mt], [@l], [logrus_error], nor [func] or [file] when the caller is
    reported, and it is not the [fields.]-prefixed name of such a key
    that is itself a field of the entry) is in the record under its own
    name, an error value as its text; a field named [@t], [@mt] or [@l]
    is in the record under that name prefixed with [fields.]; and the
    body of the request sent is the JSON encoding of this record. *)
Theorem clef_record_fields (env : Env) (entry : logrus.Entry) :
  record_of env entry !! "@mt" = Some (logrus.VString (logrus.Message entry))
  /\ record_of env entry !! "@l" =
       Some (logrus.VString (logrus.Level_String (logrus.EntryLevel entry)))
  /\ record_of env entry !! "@t" =
       Some (logrus.VString
               (time_Format env (logrus.Time entry) time.RFC3339Nano))
  /\ (forall k v,
        logrus.Data entry !! k = Some v ->
        free_name entry k ->
        record_of env entry !! k = Some (logrus.flatten v))
  /\ (forall k v,
        k ∈ ["@t"; "@mt"; "@l"] ->
        logrus.Data entry !! k = Some v ->
        record_of env entry !! ("fields." +:+ k) = Some (logrus.flatten v))
  /\ (forall p req,
        sent (snd (Fire env entry p)) = (sent p ++ [req])%list ->
        json_Encode env (record_of env entry) = Ok (http.Body req)).
Proof.
  rewrite record_of_unfold.
  split; [|split; [|split; [|split; [|split]]]].
  - rewrite with_caller_other by done.
    rewrite lookup_insert_ne by done. by rewrite lookup_insert_eq.
  - rewrite with_caller_other by done. by rewrite lookup_insert_eq.
  - rewrite with_caller_other by done.
    rewrite !lookup_insert_ne by done. by rewrite lookup_insert_eq.
  - intros k v Hv Hfree.
    destruct (free_name_base entry k Hfree) as (? & ? & ? & ? & Hcaller).
    rewrite with_caller_other by done.
    rewrite !lookup_insert_ne by done.
    case_bool_decide; rewrite ?lookup_insert_ne by done;
      rewrite prefixFieldClashes_other by done;
      by rewrite lookup_fmap, Hv.
  - intros k v Hk Hv.
    assert (Hpre : (logrus.flatten <$> logrus.Data entry) !! k
                   = Some (logrus.flatten v)) by by rewrite lookup_fmap, Hv.
    pose proof (prefixFieldClashes_prefixed (logrus.HasCaller entry) k _ _
                  Hk Hpre) as Hclash.
    rewrite !elem_of_cons in Hk.
    destruct Hk as [-> | [-> | [-> | Hk]]];
      [| | |by apply not_elem_of_nil in Hk].
    all: rewrite with_caller_other by done.
    all: rewrite !lookup_insert_ne by done.
    all: case_bool_decide; rewrite ?lookup_insert_ne by done; exact Hclash.
  - intros p req Hsent. rewrite <- record_of_unfold.
    destruct (Outcome_sent _ _ _ _ _ (Fire_outcome env entry p))
      as [Heq|(data & req0 & Hf & Hr & Heq)]; rewrite Heq in Hsent.
    { by apply sent_grows_not in Hsent. }
    apply app_inj_tail in Hsent as [_ <-].
    apply NewRequest_POST in Hr. subst req0. cbn.
    by apply Format_encodes_record.
Qed.

(** C3 (as stated) fails on an entry that has a field named like a
    reserved key.  With the message [hello] and the fields [@mt = 1] and
    [logrus_error = 2], the key [@mt] holds the message, field [@mt] is
    found under [fields.@mt], and field [logrus_error] is found under
    [fields.logrus_error] while the key [logrus_error] is absent; no
    record at all could hold both the message and the field under
    [@mt]. *)
Lemma clef_mapping_fails_on_reserved_name :
  record_of (sample.endpoint_env 201 (Ok "")) sample.clash_entry !! "@mt"
    = Some (logrus.VString "hello")
  /\ record_of (sample.endpoint_env 201 (Ok "")) sample.clash_entry
       !! "fields.@mt" = Some (logrus.VInt 1)
  /\ record_of (sample.endpoint_env 201 (Ok "")) sample.clash_entry
       !! "logrus_error" = None
  /\ record_of (sample.endpoint_env 201 (Ok "")) sample.clash_entry
       !! "fields.logrus_error" = Some (logrus.VInt 2)
  /\ ~ clef_mapping (sample.endpoint_env 201 (Ok "")) sample.clash_entry
        (record_of (sample.endpoint_env 201 (Ok "")) sample.clash_entry)
  /\ forall r,
       ~ clef_mapping (sample.endpoint_env 201 (Ok "")) sample.clash_entry r.
Proof.
  assert (Hnone : forall r,
            ~ clef_mapping (sample.endpoint_env 201 (Ok ""))
                sample.clash_entry r).
  { intros r (Hmt & _ & _ & Hfields).
    specialize (Hfields "@mt" (logrus.VInt 1) eq_refl).
    rewrite Hmt in Hfields. discriminate. }
  repeat split; try reflexivity; [apply Hnone | exact Hnone].
Qed.

(** * Further properties of the package *)

(** ** Construction from the exported options *)

Lemma apply_options_settings (ss : list Setting) (sho : SeqHookOptions) :
  apply_options (configurator <$> ss) sho =
  {| opt_apiKey := last_apiKey ss (opt_apiKey sho);
     opt_levels := last_levels ss (opt_levels sho) |}.
Proof.
  revert sho. induction ss as [|[k|l] ss IH]; intros sho.
  - by destruct sho.
  - change (apply_options (configurator <$> SetAPIKey k :: ss) sho)
      with (apply_options (configurator <$> ss) (OptionAPIKey k sho)).
    by rewrite IH.
  - change (apply_options (configurator <$> SetLevels l :: ss) sho)
      with (apply_options (configurator <$> ss) (OptionLevels l sho)).
    by rewrite IH.
Qed.

(** X1: a hook built from any sequence of the two exported options is
    determined field by field: its endpoint is the host with the raw
    events path, its API key is that of the last API-key option (empty
    when there is none), and its level list is that of the last level
    option (the seven default levels when there is none). *)
Theorem NewSeqHook_of_settings (host : string) (ss : list Setting) :
  NewSeqHook host (configurator <$> ss) =
  {| endpoint := host +:+ "/api/events/raw";
     apiKey := last_apiKey ss "";
     levels := last_levels ss
                 [logrus.TraceLevel; logrus.DebugLevel; logrus.InfoLevel;
                  logrus.WarnLevel; logrus.ErrorLevel; logrus.FatalLevel;
                  logrus.PanicLevel] |}.
Proof.
  unfold NewSeqHook. rewrite apply_options_settings.
  by rewrite Sprintf_endpoint.
Qed.

Example settings_mixed :
  NewSeqHook "h"
    (configurator <$> [SetAPIKey "a"; SetLevels [logrus.InfoLevel];
                       SetAPIKey "b"; SetLevels []]) =
  mkSeqHook "h/api/events/raw" "b" [].
Proof. reflexivity. Qed.

(** ** When a request goes out *)

Lemma NewRequest_POST_iff (url_Parse : string -> option error)
    (url body : string) :
  (exists req0, http.NewRequest url_Parse "POST" url body = Ok req0)
  <-> url_Parse url = None.
Proof.
  unfold http.NewRequest. cbn.
  destruct (url_Parse url); split; try done.
  - by intros [req0 ?].
  - eauto.
Qed.

Lemma Format_Ok_iff (env : Env) (entry : logrus.Entry) (data : string) :
  logrus.Format (time_Format env) (json_Encode env) formatter entry = Ok data
  <-> json_Encode env (record_of env entry) = Ok data.
Proof.
  unfold logrus.Format, record_of.
  destruct (json_Encode env _); split; congruence.
Qed.

(** X2: a call of [Fire] hands at most one request to the HTTP client,
    and it hands one over exactly when the record could be encoded and
    the hook's endpoint parses as a URL; after an encoding failure or
    with an unparsable endpoint nothing goes out.  Whether the round
    trip then succeeds plays no part. *)
Theorem request_sent_iff_encoded_and_parsed (env : Env)
    (entry : logrus.Entry) (p : Process) :
  ((exists req, sent (snd (Fire env entry p)) = (sent p ++ [req])%list)
   <-> (exists data, json_Encode env (record_of env entry) = Ok data)
       /\ url_Parse env (endpoint (receiver p)) = None)
  /\ (sent (snd (Fire env entry p)) = sent p
      \/ exists req, sent (snd (Fire env entry p)) = (sent p ++ [req])%list)
  /\ ((forall data, json_Encode env (record_of env entry) <> Ok data) ->
      sent (snd (Fire env entry p)) = sent p)
  /\ (url_Parse env (endpoint (receiver p)) <> None ->
      sent (snd (Fire env entry p)) = sent p).
Proof.
  assert (Hfwd : forall req,
            sent (snd (Fire env entry p)) = (sent p ++ [req])%list ->
            (exists data, json_Encode env (record_of env entry) = Ok data)
            /\ url_Parse env (endpoint (receiver p)) = None).
  { intros req Hsent.
    destruct (Outcome_sent _ _ _ _ _ (Fire_outcome env entry p))
      as [Heq|(data & req0 & Hf & Hr & Heq)].
    { rewrite Heq in Hsent. by apply sent_grows_not in Hsent. }
    split.
    - exists data. by apply Format_Ok_iff.
    - eapply NewRequest_POST_iff. eauto. }
  assert (Hone : sent (snd (Fire env entry p)) = sent p
                 \/ exists req,
                      sent (snd (Fire env entry p)) = (sent p ++ [req])%list).
  { destruct (Outcome_sent _ _ _ _ _ (Fire_outcome env entry p))
      as [Heq|(data & req0 & Hf & Hr & Heq)]; eauto. }
  split; [split|split; [exact Hone|split]].
  - intros [req Hsent]. eauto.
  - intros [[data Hdata] Hurl].
    apply Format_Ok_iff in Hdata.
    apply (NewRequest_POST_iff _ _ data) in Hurl as [req0 Hreq].
    fire_cases env entry p; eexists; reflexivity.
  - intros Hnone. destruct Hone as [?|[req Hsent]]; [done|].
    destruct (Hfwd req Hsent) as [[data Hdata] _]. by destruct (Hnone data).
  - intros Hurl. destruct Hone as [?|[req Hsent]]; [done|].
    by destruct (Hfwd req Hsent) as [_ ?].
Qed.

(** ** The shape of the request *)

(** X3: every request [Fire] sends is a POST to the hook's endpoint
    whose body is the encoded record; its content type is
    [application/vnd.serilog.clef], once; and it has no header beside
    the content type and the API key.  For a hook built by [NewSeqHook]
    the URL is the host followed by [/api/events/raw]. *)
Theorem sent_request_shape (env : Env) (entry : logrus.Entry) (p : Process)
    (req : http.Request) :
  sent (snd (Fire env entry p)) = (sent p ++ [req])%list ->
  http.Method req = "POST"
  /\ http.URL req = endpoint (receiver p)
  /\ json_Encode env (record_of env entry) = Ok (http.Body req)
  /\ http.Header_Values (http.Header req) "Content-Type"
     = ["application/vnd.serilog.clef"]
  /\ (forall k, is_Some (http.Header req !! k) ->
        k = "Content-Type" \/ k = "X-Seq-Apikey")
  /\ (forall host opts, receiver p = NewSeqHook host opts ->
        http.URL req = host +:+ "/api/events/raw").
Proof.
  intros Hsent.
  destruct (Outcome_sent _ _ _ _ _ (Fire_outcome env entry p))
    as [Heq|(data & req0 & Hf & Hr & Heq)]; rewrite Heq in Hsent.
  { by apply sent_grows_not in Hsent. }
  apply app_inj_tail in Hsent as [_ <-].
  apply NewRequest_POST in Hr. subst req0.
  unfold http.Header_Values.
  rewrite canonical_content_type, dress_header by reflexivity.
  split; [reflexivity|]. split; [reflexivity|].
  split; [by apply Format_Ok_iff|].
  split; [|split].
  - case_bool_decide; [by rewrite lookup_singleton_eq|].
    rewrite lookup_insert_ne by done. by rewrite lookup_singleton_eq.
  - intros k [v Hk]. destruct (decide (k = "Content-Type")); [by left|].
    right. destruct (decide (k = "X-Seq-Apikey")); [done|].
    case_bool_decide; rewrite ?lookup_insert_ne in Hk by done;
      by rewrite lookup_singleton_ne in Hk.
  - intros host opts ->. reflexivity.
Qed.

Lemma sent_request_shape_witness :
  http.Method
    {| http.Method := "POST";
       http.URL := "http://localhost:5341/api/events/raw";
       http.Header :=
         <["X-Seq-Apikey" := ["k1"]]>
           {[ "Content-Type" := ["application/vnd.serilog.clef"] ]};
       http.Body := "{}" |} = "POST".
Proof.
  refine (proj1 (sent_request_shape
            (sample.endpoint_env 500 (Ok "internal error")) (sample.entry ∅)
            (start (NewSeqHook "http://localhost:5341" [OptionAPIKey "k1"]))
            {| http.Method := "POST";
               http.URL := "http://localhost:5341/api/events/raw";
               http.Header :=
                 <["X-Seq-Apikey" := ["k1"]]>
                   {[ "Content-Type" := ["application/vnd.serilog.clef"] ]};
               http.Body := "{}" |} _)).
  reflexivity.
Defined.

(** ** What a call depends on *)

(** X4: [Fire] never consults the hook's level list.  Replacing the
    list by any other, the empty one included, changes neither the
    returned error nor the request sent nor the bodies closed: a hook
    delivers every entry it is fired with, and filtering by level is
    left to the caller. *)
Theorem Fire_ignores_levels (env : Env) (entry : logrus.Entry)
    (p : Process) (lv : list logrus.Level) :
  fst (Fire env entry (with_levels lv p)) = fst (Fire env entry p)
  /\ sent (snd (Fire env entry (with_levels lv p)))
     = sent (snd (Fire env entry p))
  /\ opened (snd (Fire env entry (with_levels lv p)))
     = opened (snd (Fire env entry p))
  /\ closed (snd (Fire env entry (with_levels lv p)))
     = closed (snd (Fire env entry p))
  /\ Levels (receiver (snd (Fire env entry (with_levels lv p)))) = lv.
Proof.
  unfold with_levels, Fire.
  destruct (logrus.Format _ _ _ _) as [data|e]; cbn; [|done].
  unfold bind, load; cbn.
  destruct (http.NewRequest _ _ _ _) as [req0|e]; cbn; [|done].
  unfold Do; cbn.
  destruct (RoundTrip env _) as [resp|e]; cbn; [|done].
  destruct (bool_decide _); cbn; [done|].
  by destruct (ReadAll _).
Qed.

(** X5: the body of a response is closed exactly once on each of the
    three exits that follow a response (status 201, rejection, body read
    error), and nothing is opened or closed on the exits before one
    (encoding, request construction and transport failures). *)
Theorem body_closed_once_per_response (env : Env) (entry : logrus.Entry)
    (p : Process) :
  (forall req resp,
     answered env entry p req resp ->
     opened (snd (Fire env entry p)) = S (opened p)
     /\ closed (snd (Fire env entry p)) = S (closed p))
  /\ ((forall req resp, ~ answered env entry p req resp) ->
      opened (snd (Fire env entry p)) = opened p
      /\ closed (snd (Fire env entry p)) = closed p).
Proof.
  split.
  - intros req resp Hans.
    apply answered_inv in Hans as (data & req0 & Hf & Hr & -> & Hrt).
    fire_cases env entry p; by cbn.
  - intros Hnone.
    assert (Hnone' : forall req resp,
              sent (snd (Fire env entry p)) = (sent p ++ [req])%list ->
              RoundTrip env req <> Ok resp).
    { intros req resp Hsent Hrt. by apply (Hnone req resp). }
    fire_cases env entry p; cbn in *; try done.
    all: by edestruct Hnone'.
Qed.

(** X7: what closing the response body returns never reaches the
    caller.  With collaborators that differ only in that closing always
    succeeds, [Fire] returns the same error and leaves the same process
    behind. *)
Theorem close_result_is_dropped (env : Env) (entry : logrus.Entry)
    (p : Process) :
  Fire (quiet_close env) entry p = Fire env entry p.
Proof.
  unfold Fire. cbn [quiet_close time_Format json_Encode url_Parse].
  destruct (logrus.Format _ _ _ _) as [data|e]; cbn; [|done].
  unfold bind, load; cbn.
  destruct (http.NewRequest _ _ _ _) as [req0|e]; cbn; [|done].
  unfold Do; cbn.
  destruct (RoundTrip env _) as [resp|e]; cbn; [|done].
  destruct (bool_decide _); cbn; [done|].
  by destruct (http.RespBody resp).
Qed.
